(** * tamr_toolbox.notifications.emails

    A shallow embedding of [src/tamr_toolbox/notifications/emails.py]:
    [_build_message], [send_email], [_send_job_status_message] and
    [monitor_job], together with the properties the specification states
    about them.

    The Python code talks to the outside world through [smtplib], [ssl],
    [logging] and the Tamr client.  Those calls are modelled as
    operations of an abstract environment that owns a [World]; every
    call is recorded, in order, in a trace, so that statements such as
    "no send is performed" or "the plaintext connection is upgraded
    before login" are statements about the trace. *)

From Stdlib Require Import ZArith Lia Ascii String.
From stdpp Require Import gmap strings list.

Local Open Scope string_scope.
Local Open Scope list_scope.
Local Open Scope stdpp_scope.
Local Open Scope Z_scope.

(** ** Exceptions *)

(** The exception classes the module can see.  [SMTPException] stands for
    [smtplib.SMTPException] and all of its subclasses; [OtherError] for
    whatever else a library call may raise ([ssl.SSLError],
    [ConnectionRefusedError], ...), which [except SMTPException] does not
    catch; [HeaderParseError] is [email.errors.HeaderParseError], raised
    when a message cannot be rendered. *)
Inductive exn : Type :=
| SMTPException (detail : string)
| KeyError (key : string)
| TypeError (detail : string)
| TimeoutError (detail : string)
| HeaderParseError (detail : string)
| OtherError (detail : string).

(** [isinstance(e, SMTPException)] *)
Definition is_SMTPException (e : exn) : bool :=
  match e with
  | SMTPException _ => true
  | _ => false
  end.

(** [str(e)], as interpolated by [f"Error: {e}"]. *)
Definition exn_str (e : exn) : string :=
  match e with
  | SMTPException d | KeyError d | TypeError d | TimeoutError d
  | HeaderParseError d | OtherError d => d
  end.

(** What a call produces: a value, or an exception on its way up. *)
Inductive Outcome (A : Type) : Type :=
| Return (a : A)
| Raise (e : exn).
Arguments Return {A} a.
Arguments Raise {A} e.

(** ** Data *)

(** Modelled from the spec: the enumeration
    [tamr_toolbox.models.operation_state.OperationState] is not part of
    the sources at hand; section 3 of the specification lists its
    members. *)
Inductive OperationState : Type :=
| PENDING | RUNNING | SUCCEEDED | FAILED | CANCELED.

#[global] Instance OperationState_eq_dec : EqDecision OperationState.
Proof. solve_decision. Defined.

(** [OperationState[name]]: lookup of a member by its name; [Enum]
    raises [KeyError(name)] when no member has that name. *)
Definition OperationState_getitem (name : string) : Outcome OperationState :=
  if String.eqb name "PENDING" then Return PENDING
  else if String.eqb name "RUNNING" then Return RUNNING
  else if String.eqb name "SUCCEEDED" then Return SUCCEEDED
  else if String.eqb name "FAILED" then Return FAILED
  else if String.eqb name "CANCELED" then Return CANCELED
  else Raise (KeyError name).

(** The part of [tamr_unify_client.operation.Operation] the module reads:
    [operation.resource_id], [operation.state] (the raw string sent by
    the server) and, through [get_details], its description. *)
Record Operation : Type := {
  resource_id : string;
  state : string;
  description : string
}.

(** The keyword arguments that [monitor_job], [_send_job_status_message]
    and [send_email] hand down to one another unchanged. *)
Record Routing : Type := {
  sender_address : string;
  sender_password : string;
  recipient_addresses : list string;
  smtp_server : string;
  smtp_port : string;
  use_tls : bool;
  keyfile : option string;
  certfile : option string
}.

(** The dictionary [send_email] synthesises when it swallows an
    [SMTPException]: keys ["type"], ["text"] and ["error"]. *)
Record ErrorDict : Type := {
  type : string;
  text : string;
  error : exn
}.

(** The second component of [send_email]'s result: the dictionary
    returned by [SMTP.sendmail] (refused recipient -> (code, text)), or
    the synthesised error dictionary. *)
Inductive Response : Type :=
| Refusals (m : gmap string (Z * string))
| Failure (d : ErrorDict).

(** ** Calls and traces *)

Inductive Event : Type :=
| Call_send_email (message subject_line : string) (r : Routing) (raise_error : bool)
| Ev_create_default_context
| Ev_SMTP (host port : string)
| Ev_SMTP_SSL (host port : string) (kf cf : option string)
| Ev_starttls (kf cf : option string)
| Ev_login (user password : string)
| Ev_sendmail (from_addr : string) (to_addrs : list string) (msg : string)
| Ev_exit
| Ev_LOGGER_error (line : string)
| Ev_fetch (job_id : string)
| Ev_sleep (seconds : Z).

(** The outside world.  Each operation takes the world as it is and
    gives back an outcome and the world as it has become.
    - [create_default_context]: [ssl.create_default_context()];
    - [SMTP host port]: the constructor [smtplib.SMTP(host, port)], a
      plaintext connection;
    - [SMTP_SSL host port keyfile certfile]: the constructor
      [smtplib.SMTP_SSL(...)], a connection inside TLS from the start;
    - [starttls], [login], [sendmail]: the methods of the server object
      ([starttls] and [SMTP_SSL] are also handed the context created
      before; what the library makes of it is part of its answer);
    - [smtp_exit]: the server object's [__exit__], run by [with];
    - [fetch job_id]: the job service's current snapshot of an
      operation;
    - [clock], [sleep]: the wall clock, in ticks of its resolution, and
      [time.sleep]. *)
Record Environment (World : Type) : Type := {
  create_default_context : World -> Outcome unit * World;
  SMTP : string -> string -> World -> Outcome unit * World;
  SMTP_SSL : string -> string -> option string -> option string ->
             World -> Outcome unit * World;
  starttls : option string -> option string -> World -> Outcome unit * World;
  login : string -> string -> World -> Outcome unit * World;
  sendmail : string -> list string -> string ->
             World -> Outcome (gmap string (Z * string)) * World;
  smtp_exit : World -> Outcome unit * World;
  fetch : string -> World -> Outcome Operation * World;
  clock : World -> Z;
  sleep : Z -> World -> World
}.
Arguments create_default_context {World} _ _.
Arguments SMTP {World} _ _ _ _.
Arguments SMTP_SSL {World} _ _ _ _ _ _.
Arguments starttls {World} _ _ _ _.
Arguments login {World} _ _ _ _.
Arguments sendmail {World} _ _ _ _ _.
Arguments smtp_exit {World} _ _.
Arguments fetch {World} _ _ _.
Arguments clock {World} _ _.
Arguments sleep {World} _ _ _.

(** ** The monad of the module: world, trace and exceptions *)

Record State (World : Type) : Type := {
  world : World;
  trace : list Event
}.
Arguments Build_State {World} _ _.
Arguments world {World} _.
Arguments trace {World} _.

Definition M (World A : Type) : Type := State World -> Outcome A * State World.

Section Monad.
Context {World : Type}.

Definition ret {A} (a : A) : M World A := fun st => (Return a, st).

Definition raise {A} (e : exn) : M World A := fun st => (Raise e, st).

Definition bind {A B} (m : M World A) (k : A -> M World B) : M World B :=
  fun st =>
    match m st with
    | (Return a, st') => k a st'
    | (Raise e, st') => (Raise e, st')
    end.

(** The outcome of a computation that does not touch the world. *)
Definition lift {A} (o : Outcome A) : M World A := fun st => (o, st).

(** Record an event. *)
Definition emit (ev : Event) : M World unit :=
  fun st => (Return tt, {| world := world st; trace := trace st ++ [ev] |}).

(** Make a call to the environment: the event is recorded, then the
    world answers. *)
Definition call {A} (ev : Event) (op : World -> Outcome A * World) : M World A :=
  fun st =>
    let (o, w) := op (world st) in
    (o, {| world := w; trace := trace st ++ [ev] |}).

(** [try: body / except SMTPException as e: handler e]; any other
    exception passes through. *)
Definition try_except_SMTPException {A}
    (body : M World A) (handler : exn -> M World A) : M World A :=
  fun st =>
    match body st with
    | (Return a, st') => (Return a, st')
    | (Raise e, st') =>
        if is_SMTPException e then handler e st' else (Raise e, st')
    end.

(** [with <server>: body], once the server object exists: [__exit__]
    runs whether the body returned or raised; an exception from
    [__exit__] replaces the body's outcome, and otherwise ([__exit__]
    of [smtplib.SMTP] returns [None]) the body's outcome stands. *)
Definition with_server {A} (exit : M World unit) (body : M World A) : M World A :=
  fun st =>
    let (o, st1) := body st in
    match exit st1 with
    | (Return _, st2) => (o, st2)
    | (Raise e', st2) => (Raise e', st2)
    end.
End Monad.

Notation "x <- m ;; k" := (bind m (fun x => k))
  (at level 100, m at next level, right associativity).
Notation "m ;;; k" := (bind m (fun _ => k))
  (at level 100, right associativity).

(** ** The module *)

(** The double quote character, for the text of the error dictionary. *)
Definition dquote : string := String "034"%char EmptyString.

(** [raise_error: bool = True] in the signature of [send_email]. *)
Definition send_email_default_raise_error : bool := true.

Section Emails.
Context {World : Type}.
Variable env : Environment World.

(** [MIMEText(body)] with the headers set on it, rendered by
    [as_string()]; the [email] package is outside the module.  The
    rendering fails ([None]) when a header value is refused: [as_string]
    raises [email.errors.HeaderParseError] for a value that appears to
    contain an embedded header. *)
Variable MIMEText_as_string : string -> list (string * string) -> option string.

(** [tamr_toolbox.utils.operation.get_details], the human-readable
    detail text of an operation; not part of the sources at hand. *)
Variable get_details : Operation -> string.

(** How a member of [OperationState] is rendered inside an f-string
    ([{state}]); fixed by the enumeration's own definition. *)
Variable OperationState_format : OperationState -> string.

Definition _build_message (message subject_line sender : string)
    (recipients : list string) : Outcome string :=
  match MIMEText_as_string message
          [("Subject", subject_line);
           ("From", sender);
           ("To", String.concat ", " recipients)] with
  | Some text => Return text
  | None =>
      Raise (HeaderParseError
               "header value appears to contain an embedded header")
  end.

(** The body of the [with] statement of [send_email]. *)
Definition smtp_session (r : Routing) (msg : string) : M World Response :=
  (if use_tls r
   then call (Ev_starttls (keyfile r) (certfile r))
             (starttls env (keyfile r) (certfile r))
   else ret tt) ;;;
  call (Ev_login (sender_address r) (sender_password r))
       (login env (sender_address r) (sender_password r)) ;;;
  response <- call (Ev_sendmail (sender_address r) (recipient_addresses r) msg)
                   (sendmail env (sender_address r) (recipient_addresses r) msg) ;;
  ret (Refusals response).

(** The [try] block of [send_email]. *)
Definition smtp_attempt (r : Routing) (msg : string) : M World Response :=
  call Ev_create_default_context (create_default_context env) ;;;
  (if use_tls r
   then call (Ev_SMTP (smtp_server r) (smtp_port r))
             (SMTP env (smtp_server r) (smtp_port r))
   else call (Ev_SMTP_SSL (smtp_server r) (smtp_port r) (keyfile r) (certfile r))
             (SMTP_SSL env (smtp_server r) (smtp_port r) (keyfile r) (certfile r))) ;;;
  with_server (call Ev_exit (smtp_exit env)) (smtp_session r msg).

(** The [except SMTPException as e] block of [send_email]. *)
Definition smtp_failed (message : string) (raise_error : bool) (e : exn)
    : M World Response :=
  emit (Ev_LOGGER_error ("Error: " +:+ exn_str e)) ;;;
  if negb raise_error
  then ret (Failure {| type := "SMTPException";
                       text := "The email: " +:+ dquote +:+ message +:+ dquote
                               +:+ " failed to send.";
                       error := e |})
  else raise e.

(** [send_email] (the defaults of [raise_error] and [use_tls] are spelt
    out by the callers).  Its first step records the invocation itself in the
    trace (an event with no counterpart at run time), so that the way
    callers invoke it can be read off the trace.  The message is built
    before the [try] statement is entered: a failure to build it is
    neither caught nor logged. *)
Definition send_email (message subject_line : string) (r : Routing)
    (raise_error : bool) : M World (string * Response) :=
  emit (Call_send_email message subject_line r raise_error) ;;;
  msg <- lift (_build_message message subject_line
                 (sender_address r) (recipient_addresses r)) ;;
  (* response = None *)
  response <- try_except_SMTPException
                (smtp_attempt r msg)
                (smtp_failed message raise_error) ;;
  ret (message, response).

(** [state in notify_states]; on [None] Python raises [TypeError]. *)
Definition state_in (s : OperationState)
    (notify_states : option (list OperationState)) : M World bool :=
  match notify_states with
  | None => raise (TypeError "argument of type 'NoneType' is not iterable")
  | Some l => ret (bool_decide (s ∈ l))
  end.

(** [_send_job_status_message].  [notify_states] is annotated
    [List[OperationState]], but nothing keeps a caller from passing
    [None]; hence the option. *)
Definition _send_job_status_message (r : Routing) (operation : Operation)
    (notify_states : option (list OperationState))
    : M World (option (string * Response)) :=
  s <- lift (OperationState_getitem (state operation)) ;;
  (* message, resp = None, None *)
  notify <- state_in s notify_states ;;
  if (notify : bool) then
    let message := get_details operation in
    resp <- send_email message
              ("Job " +:+ resource_id operation +:+ ": "
               +:+ OperationState_format s)
              r send_email_default_raise_error ;;
    ret (Some resp)
  else ret None.

(** *** The polling loop

    [monitor_job] hands everything to
    [tamr_toolbox.notifications.common.monitor_job], which is not part of
    the sources at hand. *)

Definition MonitorLog : Type := list (string * Response).

(** An operation given by its id or as an already fetched snapshot
    ([Union[int, str, Operation]]). *)
Definition job_id_of (operation : string + Operation) : string :=
  match operation with
  | inl job_id => job_id
  | inr op => resource_id op
  end.

(** Modelled from the spec: the terminal states of the glossary
    (succeeded, failed, canceled). *)
Definition is_terminal (s : OperationState) : bool :=
  match s with
  | SUCCEEDED | FAILED | CANCELED => true
  | PENDING | RUNNING => false
  end.

(** Modelled from the spec: an unset [notifyStates] means every state. *)
Definition all_states : list OperationState :=
  [SUCCEEDED; FAILED; CANCELED; PENDING; RUNNING].

Section Poller.
Variable send_status_function :
  Routing -> Operation -> option (list OperationState) ->
  M World (option (string * Response)).
Variable r : Routing.
Variable job_id : string.
Variable poll_interval_seconds : Z.
Variable timeout_seconds : option Z.
Variable notify_states : list OperationState.
Variable start : Z.

(** Modelled from the spec: the first half of one turn of the loop of
    section 4.1: fetch the current state, classify it (an unknown state
    is fatal), and on a state not seen at the previous poll that is
    notify-worthy invoke the dispatcher with the fresh snapshot and
    append what it returns to the log. *)
Definition observe (prev : option OperationState) (log : MonitorLog)
    : M World (OperationState * MonitorLog) :=
  op <- call (Ev_fetch job_id) (fetch env job_id) ;;
  s <- lift (OperationState_getitem (state op)) ;;
  if bool_decide (prev ≠ Some s) && bool_decide (s ∈ notify_states)
  then
    resp <- send_status_function r op (Some notify_states) ;;
    match resp with
    | Some entry => ret (s, log ++ [entry])
    | None => ret (s, log)
    end
  else ret (s, log).

(** Modelled from the spec: the time to sleep before the next poll: the
    polling interval, or what is left of the budget if that is less. *)
Definition nap (now : Z) : Z :=
  match timeout_seconds with
  | Some budget => Z.min poll_interval_seconds (budget - (now - start))
  | None => poll_interval_seconds
  end.

(** Modelled from the spec: has the elapsed time since the loop started
    exceeded the budget? *)
Definition timed_out (now : Z) : bool :=
  match timeout_seconds with
  | Some budget => budget <? now - start
  | None => false
  end.

(** Modelled from the spec: the timeout policy of section 4.1: if the
    budget is exceeded before a terminal state is reached, the call
    fails with a Timeout error. *)
Definition check_budget : M World unit :=
  fun st =>
    if timed_out (clock env (world st))
    then (Raise (TimeoutError "Timeout"), st)
    else (Return tt, st).

(** Modelled from the spec: the sleep between two polls. *)
Definition doze : M World unit :=
  fun st =>
    let seconds := nap (clock env (world st)) in
    call (Ev_sleep seconds) (fun w => (Return tt, sleep env seconds w)) st.

(** Modelled from the spec: the loop of section 4.1.  A terminal state
    ends it with the log; otherwise an exceeded budget ends it with the
    Timeout error, and failing that the loop sleeps and polls again.
    [fuel] bounds the number of polls; [None] is returned when it runs
    out. *)
Fixpoint poll_loop (fuel : nat) (prev : option OperationState) (log : MonitorLog)
    : M World (option MonitorLog) :=
  match fuel with
  | O => ret None
  | S fuel' =>
      seen <- observe prev log ;;
      if is_terminal seen.1 then ret (Some seen.2)
      else
        check_budget ;;;
        doze ;;;
        poll_loop fuel' (Some seen.1) seen.2
  end.
End Poller.

(** [overruns ... budget ... k prev log st]: a run of the loop that starts
    in [st] observes the operation [k] times within the budget and not
    in a terminal state, sleeping in between, and then observes it once
    more, still not in a terminal state, when the time elapsed since
    [start] exceeds the budget. *)
Inductive overruns
    (send_status_function :
       Routing -> Operation -> option (list OperationState) ->
       M World (option (string * Response)))
    (r : Routing) (job_id : string) (poll_interval_seconds budget : Z)
    (notify_states : list OperationState) (start : Z)
    : nat -> option OperationState -> MonitorLog -> State World -> Prop :=
| overruns_now prev log st s log' st' :
    observe send_status_function r job_id notify_states prev log st
      = (Return (s, log'), st') ->
    is_terminal s = false ->
    budget < clock env (world st') - start ->
    overruns send_status_function r job_id poll_interval_seconds budget
      notify_states start 0 prev log st
| overruns_later k prev log st s log' st' :
    observe send_status_function r job_id notify_states prev log st
      = (Return (s, log'), st') ->
    is_terminal s = false ->
    clock env (world st') - start <= budget ->
    overruns send_status_function r job_id poll_interval_seconds budget
      notify_states start k (Some s) log'
      (doze poll_interval_seconds (Some budget) start st').2 ->
    overruns send_status_function r job_id poll_interval_seconds budget
      notify_states start (S k) prev log st.

(** Modelled from the spec: [tamr_toolbox.notifications.common.monitor_job]
    as section 4.1 describes the Job State Poller.  [send_message] is
    handed over by [monitor_job]; the specification gives it no role. *)
Definition monitor_job_common
    (send_message : string -> string -> Routing -> bool -> M World (string * Response))
    (send_status_function :
       Routing -> Operation -> option (list OperationState) ->
       M World (option (string * Response)))
    (r : Routing) (operation : string + Operation)
    (poll_interval_seconds : Z) (timeout_seconds : option Z)
    (notify_states : option (list OperationState))
    (fuel : nat) : M World (option MonitorLog) :=
  fun st =>
    poll_loop send_status_function r (job_id_of operation)
      poll_interval_seconds timeout_seconds
      (default all_states notify_states)
      (clock env (world st)) fuel None [] st.

(** [monitor_job]; the Tamr client is the world. *)
Definition monitor_job (r : Routing) (operation : string + Operation)
    (poll_interval_seconds : Z) (timeout_seconds : option Z)
    (notify_states : option (list OperationState))
    (fuel : nat) : M World (option MonitorLog) :=
  monitor_job_common send_email _send_job_status_message
    r operation poll_interval_seconds timeout_seconds notify_states fuel.
End Emails.

(** ** Reading traces *)

(** Is the event an invocation of [send_email]? *)
Definition is_send_email (ev : Event) : bool :=
  match ev with
  | Call_send_email _ _ _ _ => true
  | _ => false
  end.

(** How many times the transport ([send_email]) was invoked. *)
Definition transport_invocations (tr : list Event) : nat :=
  length (filter (fun ev => is_send_email ev = true) tr).

(** Does the event invoke [send_email] with [raise_error] switched off? *)
Definition suppresses_errors (ev : Event) : bool :=
  match ev with
  | Call_send_email _ _ _ raise_error => negb raise_error
  | _ => false
  end.

Definition is_SMTP (ev : Event) : bool :=
  match ev with Ev_SMTP _ _ => true | _ => false end.

Definition is_SMTP_SSL (ev : Event) : bool :=
  match ev with Ev_SMTP_SSL _ _ _ _ => true | _ => false end.

Definition is_starttls (ev : Event) : bool :=
  match ev with Ev_starttls _ _ => true | _ => false end.

(** What [_send_job_status_message] makes of the transport's outcome:
    [resp] is returned as it is, an exception is left to propagate. *)
Definition passed_on {A} (o : Outcome A) : Outcome (option A) :=
  match o with
  | Return resp => Return (Some resp)
  | Raise e => Raise e
  end.

Section Reading.
Context {World : Type}.

(** [adds P m]: whatever the state, [m] only appends events to the
    trace, and every event it appends satisfies [P]. *)

Definition adds {A} (P : Event -> Prop) (m : M World A) : Prop :=
  forall st, exists delta,
    trace (m st).2 = trace st ++ delta /\ Forall P delta.

(** The state in which the [try] statement of [send_email] starts. *)
Definition entered (message subject_line : string) (r : Routing)
    (raise_error : bool) (st : State World) : State World :=
  (emit (Call_send_email message subject_line r raise_error) st).2.

(** The error dictionary of the [except] block. *)
Definition error_dict (message : string) (e : exn) : ErrorDict :=
  {| type := "SMTPException";
     text := "The email: " +:+ dquote +:+ message +:+ dquote
             +:+ " failed to send.";
     error := e |}.

End Reading.

(** An event of the mail session of one [send_email] call: not an
    invocation of [send_email], and if it is a [sendmail], then of the
    message [built] from the arguments, which therefore was built, from
    the sender to the recipients. *)
Definition session_event (r : Routing) (built : Outcome string) (ev : Event)
    : Prop :=
  is_send_email ev = false /\
  forall from_addr to_addrs data,
    ev = Ev_sendmail from_addr to_addrs data ->
    from_addr = sender_address r /\ to_addrs = recipient_addresses r /\
    built = Return data.

(** ** A transport and job-service stub

    A small environment in which the code above can be run: a mail
    server that refuses the recipients a verdict function names, and a
    job service that plays back a script of raw states. *)

Record StubWorld : Type := {
  ticks : Z;
  script : list string
}.

(** The stub's [sendmail] goes through the recipients as
    [SMTP.sendmail] does: a recipient the server refuses is entered in
    the dictionary with the code and the text of the refusal; a refusal
    with code 421 (the server closes the connection) ends the call with
    [SMTPRecipientsRefused], and so does a dictionary with as many
    entries as there are recipients. *)
Definition stub_refusals (verdict : string -> option (Z * string))
    (to_addrs : list string) : gmap string (Z * string) :=
  foldl (fun senderrs each =>
           match verdict each with
           | Some refusal => <[each := refusal]> senderrs
           | None => senderrs
           end) ∅ to_addrs.

Definition closes_connection (verdict : string -> option (Z * string))
    (each : string) : bool :=
  match verdict each with
  | Some (code, _) => code =? 421
  | None => false
  end.

Definition stub_sendmail (verdict : string -> option (Z * string))
    (to_addrs : list string) : Outcome (gmap string (Z * string)) :=
  if existsb (closes_connection verdict) to_addrs
  then Raise (SMTPException "SMTPRecipientsRefused")
  else if (size (stub_refusals verdict to_addrs) =? length to_addrs)%nat
  then Raise (SMTPException "SMTPRecipientsRefused")
  else Return (stub_refusals verdict to_addrs).

(** The stub: [login_result] is what [login] answers; a fetch takes one
    tick of the clock and serves the next raw state of the script
    (["RUNNING"] once the script is exhausted); sleeping moves the clock
    by the time slept. *)
Definition stub (verdict : string -> option (Z * string))
    (login_result : Outcome unit) : Environment StubWorld := {|
  create_default_context := fun w => (Return tt, w);
  SMTP := fun _ _ w => (Return tt, w);
  SMTP_SSL := fun _ _ _ _ w => (Return tt, w);
  starttls := fun _ _ w => (Return tt, w);
  login := fun _ _ w => (login_result, w);
  sendmail := fun _ to_addrs _ w => (stub_sendmail verdict to_addrs, w);
  smtp_exit := fun w => (Return tt, w);
  fetch := fun job_id w =>
    (Return {| resource_id := job_id;
               state := hd "RUNNING" (script w);
               description := "" |},
     {| ticks := ticks w + 1; script := tl (script w) |});
  clock := ticks;
  sleep := fun seconds w =>
    {| ticks := ticks w + Z.max 0 seconds; script := script w |}
|}.

(** The stub's rendering refuses a header value in which a line break
    is followed, without blank or tab in between, by at least one
    character and a colon (the test of [email.header] for an embedded
    header), and otherwise writes the headers in front of the body. *)
Definition is_blank (c : ascii) : bool :=
  (Ascii.eqb c " " || Ascii.eqb c "009")%char.

Fixpoint names_header (seen : bool) (s : string) : bool :=
  match s with
  | EmptyString => false
  | String c s' =>
      if is_blank c then false
      else if Ascii.eqb c ":"%char && seen then true
      else names_header true s'
  end.

Fixpoint embedded_header (s : string) : bool :=
  match s with
  | EmptyString => false
  | String c s' =>
      (Ascii.eqb c "010"%char && names_header false s') || embedded_header s'
  end.

Definition stub_MIMEText_as_string (body : string)
    (headers : list (string * string)) : option string :=
  if existsb (fun h => embedded_header (snd h)) headers
  then None
  else Some (String.concat ""
               (map (fun h => fst h +:+ ": " +:+ snd h +:+ "; ") headers)
             +:+ body).

(** A subject that smuggles in a second header. *)
Definition bcc_subject : string :=
  "Job 1" +:+ String "010"%char "Bcc: evil@x.org".

Definition stub_get_details (operation : Operation) : string :=
  "Job: " +:+ resource_id operation +:+ " Status: " +:+ state operation.

Definition stub_format (s : OperationState) : string :=
  match s with
  | PENDING => "PENDING"
  | RUNNING => "RUNNING"
  | SUCCEEDED => "SUCCEEDED"
  | FAILED => "FAILED"
  | CANCELED => "CANCELED"
  end.

Definition routing0 : Routing := {|
  sender_address := "my_pipeline@gmail.com";
  sender_password := "secret";
  recipient_addresses := ["a@x.org"; "b@x.org"; "c@x.org"];
  smtp_server := "smtp.gmail.com";
  smtp_port := "587";
  use_tls := true;
  keyfile := None;
  certfile := None
|}.

Definition refuse_b (recipient : string) : option (Z * string) :=
  if String.eqb recipient "b@x.org" then Some (550, "No such user") else None.

Definition accept_all (recipient : string) : option (Z * string) := None.

Definition state0 : State StubWorld :=
  {| world := {| ticks := 0; script := [] |}; trace := [] |}.

Definition op_succeeded : Operation :=
  {| resource_id := "1"; state := "SUCCEEDED"; description := "Materialize views" |}.

Definition op_bogus : Operation :=
  {| resource_id := "1"; state := "EXPLODED"; description := "Materialize views" |}.

(** The module wired to the stub: a server that refuses b@x.org, and one
    whose [login] is rejected. *)
Definition stub_send :=
  send_email (stub refuse_b (Return tt)) stub_MIMEText_as_string.

Definition stub_dispatch :=
  _send_job_status_message (stub refuse_b (Return tt)) stub_MIMEText_as_string
    stub_get_details stub_format.

Definition stub_monitor_job :=
  monitor_job (stub refuse_b (Return tt)) stub_MIMEText_as_string
    stub_get_details stub_format.

Definition rejecting : Environment StubWorld :=
  stub refuse_b (Raise (SMTPException "Authentication failed")).

Definition rejecting_send :=
  send_email rejecting stub_MIMEText_as_string.

Definition rejecting_dispatch :=
  _send_job_status_message rejecting stub_MIMEText_as_string
    stub_get_details stub_format.

(** ** The calls of a mail session *)

Definition is_exit (ev : Event) : bool :=
  match ev with Ev_exit => true | _ => false end.

Definition is_login (ev : Event) : bool :=
  match ev with Ev_login _ _ => true | _ => false end.

Definition is_sendmail (ev : Event) : bool :=
  match ev with Ev_sendmail _ _ _ => true | _ => false end.

Definition is_LOGGER_error (ev : Event) : bool :=
  match ev with Ev_LOGGER_error _ => true | _ => false end.

(** How many events of a trace satisfy [p]. *)
Definition occurrences (p : Event -> bool) (tr : list Event) : nat :=
  length (filter (fun ev => p ev = true) tr).

(** The constructor call that opens the connection, as [use_tls] picks
    it in the [with] statement of [send_email]. *)
Definition connection_event (r : Routing) : Event :=
  if use_tls r
  then Ev_SMTP (smtp_server r) (smtp_port r)
  else Ev_SMTP_SSL (smtp_server r) (smtp_port r) (keyfile r) (certfile r).

(** The calls of the [try] block of [send_email] up to and including
    [sendmail], in program order, with the arguments the code gives
    them. *)
Definition session_calls (r : Routing) (msg : string) : list Event :=
  [Ev_create_default_context; connection_event r] ++
  (if use_tls r then [Ev_starttls (keyfile r) (certfile r)] else []) ++
  [Ev_login (sender_address r) (sender_password r);
   Ev_sendmail (sender_address r) (recipient_addresses r) msg].

Section Answers.
Context {World : Type}.
Variable env : Environment World.

(** The answer of the connection call. *)
Definition connect (r : Routing) (w : World) : Outcome unit * World :=
  if use_tls r
  then SMTP env (smtp_server r) (smtp_port r) w
  else SMTP_SSL env (smtp_server r) (smtp_port r) (keyfile r) (certfile r) w.

(** Does a [send_email] call started in world [w], whose attempt to
    build the message came to [built], get its server object: is the
    message built, the TLS context created and the connection opened? *)
Definition connects (built : Outcome string) (r : Routing) (w : World) : bool :=
  match built with
  | Return _ =>
      match create_default_context env w with
      | (Return _, w1) =>
          match connect r w1 with
          | (Return _, _) => true
          | (Raise _, _) => false
          end
      | (Raise _, _) => false
      end
  | Raise _ => false
  end.
End Answers.

(** Does the outcome of a [send_email] call report an [SMTPException]:
    raised, or described in the error dictionary? *)
Definition reports_SMTPException (o : Outcome (string * Response)) : bool :=
  match o with
  | Raise e => is_SMTPException e
  | Return (_, Failure _) => true
  | Return (_, Refusals _) => false
  end.

(** A mail server whose every answer is scripted. *)
Record Answers : Type := {
  on_context : Outcome unit;
  on_connect : Outcome unit;
  on_starttls : Outcome unit;
  on_login : Outcome unit;
  on_sendmail : Outcome (gmap string (Z * string));
  on_exit : Outcome unit
}.

Definition scripted (a : Answers) : Environment StubWorld := {|
  create_default_context := fun w => (on_context a, w);
  SMTP := fun _ _ w => (on_connect a, w);
  SMTP_SSL := fun _ _ _ _ w => (on_connect a, w);
  starttls := fun _ _ w => (on_starttls a, w);
  login := fun _ _ w => (on_login a, w);
  sendmail := fun _ _ _ w => (on_sendmail a, w);
  smtp_exit := fun w => (on_exit a, w);
  fetch := fun job_id w =>
    (Return {| resource_id := job_id;
               state := hd "RUNNING" (script w);
               description := "" |},
     {| ticks := ticks w + 1; script := tl (script w) |});
  clock := ticks;
  sleep := fun seconds w =>
    {| ticks := ticks w + Z.max 0 seconds; script := script w |}
|}.

(** Every call answered, nobody refused. *)
Definition all_ok : Answers := {|
  on_context := Return tt;
  on_connect := Return tt;
  on_starttls := Return tt;
  on_login := Return tt;
  on_sendmail := Return ∅;
  on_exit := Return tt
|}.

(** The server cannot be reached: the constructor fails with an error
    that is no [SMTPException] ([ConnectionRefusedError]). *)
Definition unreachable : Answers := {|
  on_context := Return tt;
  on_connect := Raise (OtherError "Connection refused");
  on_starttls := Return tt;
  on_login := Return tt;
  on_sendmail := Return ∅;
  on_exit := Return tt
|}.

(** The server does not offer STARTTLS. *)
Definition no_starttls : Answers := {|
  on_context := Return tt;
  on_connect := Return tt;
  on_starttls := Raise (SMTPException "STARTTLS extension not supported by server.");
  on_login := Return tt;
  on_sendmail := Return ∅;
  on_exit := Return tt
|}.

(** The mail is accepted, but closing the connection fails. *)
Definition bad_quit : Answers := {|
  on_context := Return tt;
  on_connect := Return tt;
  on_starttls := Return tt;
  on_login := Return tt;
  on_sendmail := Return ∅;
  on_exit := Raise (SMTPException "(500, b'QUIT failed')")
|}.


(** The messages the stub renders for the calls used below. *)
Definition hi_mime : string :=
  "Subject: subject; From: my_pipeline@gmail.com; "
  +:+ "To: a@x.org, b@x.org, c@x.org; hi".

Definition job_mime : string :=
  "Subject: Job 1: SUCCEEDED; From: my_pipeline@gmail.com; "
  +:+ "To: a@x.org, b@x.org, c@x.org; Job: 1 Status: SUCCEEDED".

(** * Properties *)

(** ** The enumeration lookup *)

Lemma OperationState_getitem_raises (name : string) (e : exn) :
  OperationState_getitem name = Raise e -> e = KeyError name.
Proof.
  unfold OperationState_getitem.
  repeat (case (String.eqb name _); [discriminate |]).
  congruence.
Qed.

Lemma OperationState_getitem_total (name : string) :
  (exists s, OperationState_getitem name = Return s) \/
  OperationState_getitem name = Raise (KeyError name).
Proof.
  destruct (OperationState_getitem name) as [s | e] eqn:E.
  - left. eauto.
  - right. f_equal. eapply OperationState_getitem_raises, E.
Qed.

Section Dispatcher.
Context {World : Type}.
Variable env : Environment World.
Variable MIMEText_as_string : string -> list (string * string) -> option string.
Variable get_details : Operation -> string.
Variable OperationState_format : OperationState -> string.

Abbreviation send := (send_email env MIMEText_as_string).
Abbreviation dispatch :=
  (_send_job_status_message env MIMEText_as_string get_details
     OperationState_format).

(** The subject line the dispatcher composes. *)
Abbreviation subject operation s :=
  ("Job " +:+ resource_id operation +:+ ": " +:+ OperationState_format s).

(** *** Shape of the dispatcher *)

Lemma dispatch_unknown_state r operation notify_states e (st : State World) :
  OperationState_getitem (state operation) = Raise e ->
  dispatch r operation notify_states st = (Raise e, st).
Proof.
  intros E. unfold _send_job_status_message, bind, lift. now rewrite E.
Qed.

Lemma dispatch_None r operation s (st : State World) :
  OperationState_getitem (state operation) = Return s ->
  dispatch r operation None st =
    (Raise (TypeError "argument of type 'NoneType' is not iterable"), st).
Proof.
  intros E. unfold _send_job_status_message, bind, lift. now rewrite E.
Qed.

Lemma dispatch_skip r operation s l (st : State World) :
  OperationState_getitem (state operation) = Return s ->
  s ∉ l ->
  dispatch r operation (Some l) st = (Return None, st).
Proof.
  intros E Hs. unfold _send_job_status_message, state_in, bind, lift, ret.
  rewrite E. now rewrite bool_decide_eq_false_2.
Qed.

Lemma dispatch_send r operation s l (st : State World) :
  OperationState_getitem (state operation) = Return s ->
  s ∈ l ->
  dispatch r operation (Some l) st =
    (passed_on (send (get_details operation) (subject operation s) r true st).1,
     (send (get_details operation) (subject operation s) r true st).2).
Proof.
  intros E Hs. unfold _send_job_status_message, state_in, bind, lift, ret.
  rewrite E, bool_decide_eq_true_2 by done.
  unfold send_email_default_raise_error.
  now destruct (send _ _ r true st) as [[resp | e] st'].
Qed.

(** *** Traces *)

Lemma adds_ret {A} P (a : A) : adds P (@ret World A a).
Proof. intros st. exists []. simpl. now rewrite app_nil_r. Qed.

Lemma adds_raise {A} P e : adds P (@raise World A e).
Proof. intros st. exists []. simpl. now rewrite app_nil_r. Qed.

Lemma adds_emit (P : Event -> Prop) ev : P ev -> adds P (@emit World ev).
Proof. intros H st. exists [ev]. simpl. auto. Qed.

Lemma adds_call {A} (P : Event -> Prop) ev (op : World -> Outcome A * World) :
  P ev -> adds P (call ev op).
Proof.
  intros H st. exists [ev]. unfold call.
  destruct (op (world st)). simpl. auto.
Qed.

Lemma adds_bind {A B} P (m : M World A) (k : A -> M World B) :
  adds P m -> (forall a, adds P (k a)) -> adds P (bind m k).
Proof.
  intros Hm Hk st. unfold bind.
  destruct (Hm st) as (d1 & E1 & F1).
  destruct (m st) as [[a | e] st1]; simpl in *.
  - destruct (Hk a st1) as (d2 & E2 & F2).
    exists (d1 ++ d2). rewrite E2, E1, app_assoc.
    split; [done | by apply Forall_app].
  - eauto.
Qed.

Lemma adds_try {A} P (body : M World A) handler :
  adds P body -> (forall e, adds P (handler e)) ->
  adds P (try_except_SMTPException body handler).
Proof.
  intros Hb Hh st. unfold try_except_SMTPException.
  destruct (Hb st) as (d1 & E1 & F1).
  destruct (body st) as [[a | e] st1]; simpl in *; [eauto |].
  destruct (is_SMTPException e); simpl; [| eauto].
  destruct (Hh e st1) as (d2 & E2 & F2).
  exists (d1 ++ d2). rewrite E2, E1, app_assoc.
  split; [done | by apply Forall_app].
Qed.

Lemma adds_with {A} P (exit : M World unit) (body : M World A) :
  adds P body -> adds P exit -> adds P (with_server exit body).
Proof.
  intros Hb Hx st. unfold with_server.
  destruct (Hb st) as (d1 & E1 & F1).
  destruct (body st) as [o st1]; simpl in *.
  destruct (Hx st1) as (d2 & E2 & F2).
  exists (d1 ++ d2).
  destruct (exit st1) as [[[] | e'] st2]; simpl in *;
    (rewrite E2, E1, app_assoc; split; [done | by apply Forall_app]).
Qed.

Lemma adds_if {A} P (b : bool) (m1 m2 : M World A) :
  adds P m1 -> adds P m2 -> adds P (if b then m1 else m2).
Proof. now destruct b. Qed.

Lemma send_email_try_adds message r msg raise_error :
  adds (session_event r (Return msg))
    (try_except_SMTPException (smtp_attempt env r msg)
       (smtp_failed message raise_error)).
Proof.
  unfold smtp_attempt, smtp_failed, smtp_session.
  repeat first
    [ apply adds_try | apply adds_bind | apply adds_with | apply adds_if
    | apply adds_ret | apply adds_raise | apply adds_emit | apply adds_call
    | intro ];
    (split; [reflexivity | intros ? ? ? [=]; subst; auto]).
Qed.

(** The events [send_email] adds to the trace start with the record of
    its own invocation, and none of the others is such a record. *)
Lemma send_email_session message subject_line r raise_error (st : State World) :
  exists rest,
    trace (send message subject_line r raise_error st).2 =
      trace st ++ Call_send_email message subject_line r raise_error :: rest /\
    Forall (session_event r
              (_build_message MIMEText_as_string message subject_line
                 (sender_address r) (recipient_addresses r))) rest.
Proof.
  unfold send_email.
  unfold bind at 1. simpl.
  set (st1 := {| world := world st; trace := _ |}).
  unfold bind at 1, lift.
  destruct (_build_message _ _ _ _ _) as [msg | e].
  - assert (H : adds (session_event r (Return msg))
                  (response <- try_except_SMTPException (smtp_attempt env r msg)
                                 (smtp_failed message raise_error) ;;
                   ret (message, response))).
    { apply adds_bind; [apply send_email_try_adds | intro; apply adds_ret]. }
    destruct (H st1) as (rest & E & F).
    exists rest. rewrite E. unfold st1. simpl.
    now rewrite <- app_assoc.
  - exists []. simpl. split; [done | constructor].
Qed.

Lemma send_email_trace message subject_line r raise_error (st : State World) :
  exists rest,
    trace (send message subject_line r raise_error st).2 =
      trace st ++ Call_send_email message subject_line r raise_error :: rest /\
    Forall (fun ev => is_send_email ev = false) rest.
Proof.
  destruct (send_email_session message subject_line r raise_error st)
    as (rest & E & F).
  exists rest. split; [done |].
  eapply Forall_impl; [exact F |]. now intros ev [H _].
Qed.

Lemma transport_invocations_app tr1 tr2 :
  transport_invocations (tr1 ++ tr2) =
    (transport_invocations tr1 + transport_invocations tr2)%nat.
Proof. unfold transport_invocations. now rewrite filter_app, length_app. Qed.

Lemma transport_invocations_none tr :
  Forall (fun ev => is_send_email ev = false) tr ->
  transport_invocations tr = 0%nat.
Proof.
  unfold transport_invocations.
  induction 1 as [| ev tr Hev _ IH]; [done |].
  rewrite filter_cons_False; [done | congruence].
Qed.

(** One call of [send_email] is one invocation of the transport. *)
Lemma send_email_invocations message subject_line r raise_error (st : State World) :
  transport_invocations (trace (send message subject_line r raise_error st).2) =
    S (transport_invocations (trace st)).
Proof.
  destruct (send_email_trace message subject_line r raise_error st)
    as (rest & -> & F).
  rewrite transport_invocations_app.
  change (Call_send_email message subject_line r raise_error :: rest)
    with ([Call_send_email message subject_line r raise_error] ++ rest).
  rewrite transport_invocations_app, (transport_invocations_none rest F).
  unfold transport_invocations. simpl. lia.
Qed.

(** *** Outcomes of [send_email] *)

(** [send_email] in terms of what building the message and the [try]
    block do. *)
Lemma send_email_unfold message subject_line r raise_error (st : State World) :
  send message subject_line r raise_error st =
    match _build_message MIMEText_as_string message subject_line
            (sender_address r) (recipient_addresses r) with
    | Raise e => (Raise e, entered message subject_line r raise_error st)
    | Return msg =>
        match smtp_attempt env r msg
                (entered message subject_line r raise_error st) with
        | (Return response, st') => (Return (message, response), st')
        | (Raise e, st') =>
            if is_SMTPException e then
              let logged :=
                (emit (Ev_LOGGER_error ("Error: " +:+ exn_str e)) st').2 in
              if raise_error then (Raise e, logged)
              else (Return (message, Failure (error_dict message e)), logged)
            else (Raise e, st')
        end
    end.
Proof.
  unfold send_email, entered, bind at 1 2, lift. simpl.
  destruct (_build_message _ _ _ _ _) as [msg | e]; [| done].
  unfold try_except_SMTPException, smtp_failed, bind at 1.
  destruct (smtp_attempt _ _ _ _) as [[response | e] st']; [done |].
  destruct (is_SMTPException e); [| done].
  now destruct raise_error.
Qed.

(** What the mail session returns, when it returns, is the dictionary of
    [sendmail]. *)
Lemma smtp_attempt_returns r msg (st st' : State World) response :
  smtp_attempt env r msg st = (Return response, st') ->
  exists m, response = Refusals m.
Proof.
  unfold smtp_attempt, with_server, smtp_session, bind, call, ret.
  destruct (create_default_context env _) as [[[] | ?] ?]; [| discriminate].
  simpl.
  destruct (use_tls r); simpl.
  - destruct (SMTP env _ _ _) as [[[] | ?] ?]; simpl.
    + destruct (starttls env _ _ _) as [[[] | ?] ?]; simpl.
      * destruct (login env _ _ _) as [[[] | ?] ?]; simpl.
        -- destruct (sendmail env _ _ _ _) as [[m | ?] ?]; simpl;
             destruct (smtp_exit env _) as [[[] | ?] ?]; intros [=]; eauto.
        -- destruct (smtp_exit env _) as [[[] | ?] ?]; discriminate.
      * destruct (smtp_exit env _) as [[[] | ?] ?]; discriminate.
    + discriminate.
  - destruct (SMTP_SSL env _ _ _ _ _) as [[[] | ?] ?]; simpl.
    + destruct (login env _ _ _) as [[[] | ?] ?]; simpl.
      * destruct (sendmail env _ _ _ _) as [[m | ?] ?]; simpl;
          destruct (smtp_exit env _) as [[[] | ?] ?]; intros [=]; eauto.
      * destruct (smtp_exit env _) as [[[] | ?] ?]; discriminate.
    + discriminate.
Qed.

(** With [raise_error] on, [send_email] never hands back an error
    dictionary. *)
Lemma send_email_raising_no_Failure message subject_line r (st st' : State World)
    message' d :
  send message subject_line r true st <> (Return (message', Failure d), st').
Proof.
  rewrite send_email_unfold.
  destruct (_build_message _ _ _ _ _) as [msg | e0]; [| discriminate].
  destruct (smtp_attempt _ _ _ _) as [[response | e] st1] eqn:E.
  - apply smtp_attempt_returns in E as [m ->]. discriminate.
  - destruct (is_SMTPException e); discriminate.
Qed.

(** When every call of the mail session is answered, [send_email]
    returns the message and, untouched, the dictionary [sendmail]
    returned. *)
Lemma send_email_returns_sendmail_dictionary
    message subject_line r raise_error (st : State World) msg w1 w2 w3 w4 w5 w6 m :
  _build_message MIMEText_as_string message subject_line
    (sender_address r) (recipient_addresses r) = Return msg ->
  create_default_context env (world st) = (Return tt, w1) ->
  (if use_tls r
   then SMTP env (smtp_server r) (smtp_port r) w1
   else SMTP_SSL env (smtp_server r) (smtp_port r) (keyfile r) (certfile r) w1)
    = (Return tt, w2) ->
  (if use_tls r then starttls env (keyfile r) (certfile r) w2 else (Return tt, w2))
    = (Return tt, w3) ->
  login env (sender_address r) (sender_password r) w3 = (Return tt, w4) ->
  sendmail env (sender_address r) (recipient_addresses r) msg w4
    = (Return m, w5) ->
  smtp_exit env w5 = (Return tt, w6) ->
  (send message subject_line r raise_error st).1 = Return (message, Refusals m) /\
  world (send message subject_line r raise_error st).2 = w6.
Proof.
  intros Hbuilt Hctx Hconn Htls Hlogin Hsend Hexit.
  rewrite send_email_unfold, Hbuilt.
  unfold entered, smtp_attempt, with_server, smtp_session, bind, call, emit, ret.
  simpl. rewrite Hctx. simpl.
  destruct (use_tls r); simpl.
  - rewrite Hconn. simpl. rewrite Htls. simpl. rewrite Hlogin. simpl.
    rewrite Hsend. simpl. rewrite Hexit. done.
  - injection Htls as <-.
    rewrite Hconn. simpl. rewrite Hlogin. simpl.
    rewrite Hsend. simpl. rewrite Hexit. done.
Qed.

(** *** The claims about the dispatcher and the transport *)

(** C1.  Let the operation's state be [s] and [notify_states] a list.
    If [s] is not in [notify_states] the dispatcher returns [None] and
    leaves world and trace as they were: nothing is sent.  If [s] is in
    [notify_states] the dispatcher is one call of [send_email]: it
    returns what that call returns (the message and the server's
    response) unmodified, lets its exception propagate, and the trace
    counts exactly one more invocation of the transport. *)
Theorem dispatcher_sends_iff_state_notified
    r operation s (notify_states : list OperationState) (st : State World) :
  OperationState_getitem (state operation) = Return s ->
  (s ∉ notify_states ->
     dispatch r operation (Some notify_states) st = (Return None, st)) /\
  (s ∈ notify_states ->
     let sent := send (get_details operation) (subject operation s) r true st in
     dispatch r operation (Some notify_states) st = (passed_on sent.1, sent.2) /\
     transport_invocations (trace sent.2) = S (transport_invocations (trace st))).
Proof.
  intros E. split; intros Hs.
  - eapply dispatch_skip; eauto.
  - split.
    + eapply dispatch_send; eauto.
    + apply send_email_invocations.
Qed.

(** C3.  When the raw state of the operation names no member of
    [OperationState], the dispatcher raises the [KeyError] of the lookup,
    whatever [notify_states] is (a list or [None]): the failure comes
    before the membership test, and world and trace are untouched, so
    nothing is sent. *)
Theorem unknown_state_is_fatal
    r operation (notify_states : option (list OperationState)) (st : State World) :
  (forall s, OperationState_getitem (state operation) <> Return s) ->
  dispatch r operation notify_states st = (Raise (KeyError (state operation)), st).
Proof.
  intros Hunknown.
  destruct (OperationState_getitem_total (state operation)) as [[s E] | E].
  - now destruct (Hunknown s).
  - now apply dispatch_unknown_state.
Qed.

(** C9.  Called with [notify_states = None] the dispatcher always fails,
    for every operation: with the [KeyError] of the state lookup or with
    the [TypeError] of the membership test on [None].  World and trace
    are untouched: no notification is dispatched. *)
Theorem None_is_not_every_state r operation (st : State World) :
  exists e,
    dispatch r operation None st = (Raise e, st) /\
    (e = KeyError (state operation) \/
     e = TypeError "argument of type 'NoneType' is not iterable").
Proof.
  destruct (OperationState_getitem_total (state operation)) as [[s E] | E].
  - eexists. split; [eapply dispatch_None, E | now right].
  - eexists. split; [eapply dispatch_unknown_state, E | now left].
Qed.

(** C6.  When the operation's state [s] is in [notify_states], the one
    invocation of [send_email] the dispatcher makes carries the subject
    ["Job {resource_id}: {state}"] and as message the operation's detail
    text; every [sendmail] of that session submits the MIME message
    built from exactly these; and the message the dispatcher returns is
    the detail text. *)
Theorem notification_subject_and_body
    r operation s (notify_states : list OperationState) (st : State World) :
  OperationState_getitem (state operation) = Return s ->
  s ∈ notify_states ->
  let ran := dispatch r operation (Some notify_states) st in
  (exists rest,
     trace ran.2 =
       trace st ++
       Call_send_email (get_details operation)
         ("Job " +:+ resource_id operation +:+ ": " +:+ OperationState_format s)
         r true :: rest /\
     Forall (session_event r
               (_build_message MIMEText_as_string (get_details operation)
                  ("Job " +:+ resource_id operation +:+ ": "
                   +:+ OperationState_format s)
                  (sender_address r) (recipient_addresses r))) rest) /\
  (forall message response,
     ran.1 = Return (Some (message, response)) ->
     message = get_details operation).
Proof.
  intros E Hs ran. unfold ran.
  rewrite (dispatch_send r operation s notify_states st E Hs). simpl.
  split.
  - apply send_email_session.
  - intros message response. rewrite send_email_unfold.
    destruct (_build_message _ _ _ _ _) as [msg | e0]; [| discriminate].
    destruct (smtp_attempt _ _ _ _) as [[resp | e] st1]; simpl.
    + now intros [= <- _].
    + destruct (is_SMTPException e); simpl; discriminate.
Qed.

(** C8.  Two calls of the dispatcher, one after the other, with the same
    operation snapshot and the same [notify_states] containing its
    state: each of them is a full call of [send_email] with the same
    arguments, the second run on the world the first has left, and the
    trace counts two more invocations of the transport.  Nothing of the
    first call is remembered. *)
Theorem dispatching_twice_sends_twice
    r operation s (notify_states : list OperationState) (st : State World) :
  OperationState_getitem (state operation) = Return s ->
  s ∈ notify_states ->
  let first := dispatch r operation (Some notify_states) st in
  let second := dispatch r operation (Some notify_states) first.2 in
  let sent1 := send (get_details operation) (subject operation s) r true st in
  let sent2 := send (get_details operation) (subject operation s) r true first.2 in
  first = (passed_on sent1.1, sent1.2) /\
  second = (passed_on sent2.1, sent2.2) /\
  transport_invocations (trace second.2) =
    S (S (transport_invocations (trace st))).
Proof.
  intros E Hs first second sent1 sent2.
  assert (H1 : first = (passed_on sent1.1, sent1.2))
    by (eapply dispatch_send; eauto).
  assert (H2 : second = (passed_on sent2.1, sent2.2))
    by (eapply dispatch_send; eauto).
  repeat split; [done | done |].
  rewrite H2. simpl. unfold sent2.
  rewrite send_email_invocations. f_equal.
  rewrite H1. simpl. apply send_email_invocations.
Qed.

Lemma not_send_email_not_suppressing ev :
  is_send_email ev = false -> suppresses_errors ev = false.
Proof. now destruct ev. Qed.

(** The dispatcher is one of: a failure that leaves the state alone, a
    silent [None], or a call of [send_email] with [raise_error] on. *)
Lemma dispatch_cases r operation notify_states (st : State World) :
  (exists e, dispatch r operation notify_states st = (Raise e, st)) \/
  dispatch r operation notify_states st = (Return None, st) \/
  (exists s,
     OperationState_getitem (state operation) = Return s /\
     let sent := send (get_details operation) (subject operation s) r true st in
     dispatch r operation notify_states st = (passed_on sent.1, sent.2)).
Proof.
  destruct (OperationState_getitem_total (state operation)) as [[s E] | E].
  - destruct notify_states as [l |].
    + destruct (decide (s ∈ l)) as [Hs | Hs].
      * right. right. exists s. split; [done |]. now apply dispatch_send.
      * right. left. now apply (dispatch_skip r operation s).
    + left. eexists. eapply dispatch_None, E.
  - left. eexists. eapply dispatch_unknown_state, E.
Qed.

(** No event the dispatcher adds is an invocation of [send_email] with
    [raise_error] off. *)
Lemma dispatch_adds r operation notify_states :
  adds (fun ev => suppresses_errors ev = false)
    (dispatch r operation notify_states).
Proof.
  intros st.
  destruct (dispatch_cases r operation notify_states st)
    as [[e ->] | [-> | (s & _ & ->)]]; simpl.
  - exists []. now rewrite app_nil_r.
  - exists []. now rewrite app_nil_r.
  - destruct (send_email_trace (get_details operation) (subject operation s)
                r true st) as (rest & -> & F).
    eexists. split; [reflexivity |].
    constructor; [reflexivity |].
    eapply Forall_impl; [exact F |].
    apply not_send_email_not_suppressing.
Qed.

(** C10.  Whatever the arguments and the world, every invocation of
    [send_email] the dispatcher makes has [raise_error] on (none of the
    events it adds is an invocation with [raise_error] off); the
    dispatcher never returns the error dictionary of the suppressing
    branch; and when the mail session of its [send_email] call (the
    [try] block, run on the message the call has built) fails with an
    [SMTPException], the dispatcher raises that exception. *)
Theorem dispatcher_never_suppresses_errors
    r operation (notify_states : option (list OperationState)) (st : State World) :
  (exists delta,
     trace (dispatch r operation notify_states st).2 = trace st ++ delta /\
     Forall (fun ev => suppresses_errors ev = false) delta) /\
  (forall message d st',
     dispatch r operation notify_states st
       <> (Return (Some (message, Failure d)), st')) /\
  (forall s l msg e st',
     notify_states = Some l ->
     OperationState_getitem (state operation) = Return s ->
     s ∈ l ->
     _build_message MIMEText_as_string (get_details operation)
       (subject operation s) (sender_address r) (recipient_addresses r)
       = Return msg ->
     smtp_attempt env r msg
       (entered (get_details operation) (subject operation s) r true st)
       = (Raise e, st') ->
     is_SMTPException e = true ->
     (dispatch r operation notify_states st).1 = Raise e).
Proof.
  split; [| split].
  - apply dispatch_adds.
  - intros message d st'.
    destruct (dispatch_cases r operation notify_states st)
      as [[e ->] | [-> | (s & _ & ->)]]; simpl; try discriminate.
    destruct (send _ _ r true st) as [[[message' response] | e] st1] eqn:E;
      simpl; [| discriminate].
    intros [= -> -> ->].
    now apply send_email_raising_no_Failure in E.
  - intros s l msg e st' -> E Hs Hbuilt Hfail He.
    rewrite (dispatch_send r operation s l st E Hs). simpl.
    rewrite send_email_unfold, Hbuilt, Hfail, He. reflexivity.
Qed.

(** C4.  Take a call of [send_email] whose mail session (the [try]
    block, run on the message [msg] the call has built) fails with an
    [SMTPException] [e].  With [raise_error] on the
    call raises [e]; with [raise_error] off it returns normally, and
    what it returns in place of the refusal dictionary is the error
    dictionary with the three entries [type] (the failure kind,
    ["SMTPException"]), [text] (a sentence quoting the message) and
    [error] (the exception [e], the cause).  Either way one line has
    been written to the error log. *)
Theorem smtp_failure_raised_or_described
    message subject_line r raise_error msg e (st st' : State World) :
  _build_message MIMEText_as_string message subject_line
    (sender_address r) (recipient_addresses r) = Return msg ->
  smtp_attempt env r msg
    (entered message subject_line r raise_error st) = (Raise e, st') ->
  is_SMTPException e = true ->
  send message subject_line r raise_error st =
    (if raise_error
     then Raise e
     else Return (message,
                  Failure {| type := "SMTPException";
                             text := "The email: " +:+ dquote +:+ message
                                     +:+ dquote +:+ " failed to send.";
                             error := e |}),
     {| world := world st';
        trace := trace st' ++ [Ev_LOGGER_error ("Error: " +:+ exn_str e)] |}).
Proof.
  intros Hbuilt Hfail He.
  rewrite send_email_unfold, Hbuilt, Hfail, He.
  now destruct raise_error.
Qed.

(** Case analysis on the answer of a call to the mail server. *)
Ltac answer :=
  match goal with
  | |- context [SMTP env ?h ?p ?w] =>
      destruct (SMTP env h p w) as [[[] | ?] ?]
  | |- context [SMTP_SSL env ?h ?p ?k ?c ?w] =>
      destruct (SMTP_SSL env h p k c w) as [[[] | ?] ?]
  | |- context [starttls env ?k ?c ?w] =>
      destruct (starttls env k c w) as [[[] | ?] ?]
  | |- context [login env ?u ?p ?w] =>
      destruct (login env u p w) as [[[] | ?] ?]
  | |- context [sendmail env ?f ?t ?m ?w] =>
      destruct (sendmail env f t m w) as [[? | ?] ?]
  | |- context [smtp_exit env ?w] =>
      destruct (smtp_exit env w) as [[[] | ?] ?]
  | |- context [is_SMTPException ?e] =>
      destruct (is_SMTPException e)
  end; simpl.

Ltac trace_shape :=
  simpl; rewrite <- ?app_assoc; simpl;
  repeat first [ reflexivity | eexists | split | constructor | discriminate
               | intros ? [=] ].

(** C7.  Take a call of [send_email] whose message could be built and
    for which the TLS context could be created (a call that fails before
    makes no connection at all).  With [use_tls] on, the next thing the call does is open a
    plaintext connection, [SMTP(smtp_server, smtp_port)]; it opens no
    other connection; and if the connection is established, its very next
    step (before logging in) is to upgrade it with
    [starttls(keyfile, certfile)], once.  With [use_tls] off, the call
    connects with [SMTP_SSL(smtp_server, smtp_port, keyfile, certfile)],
    a channel encrypted from the start, and neither opens a plaintext
    connection nor issues STARTTLS. *)
Theorem encryption_follows_use_tls
    message subject_line r raise_error (st : State World) msg w1 :
  _build_message MIMEText_as_string message subject_line
    (sender_address r) (recipient_addresses r) = Return msg ->
  create_default_context env (world st) = (Return tt, w1) ->
  let tr := trace (send message subject_line r raise_error st).2 in
  (use_tls r = true ->
     exists rest,
       tr = trace st ++
            Call_send_email message subject_line r raise_error ::
            Ev_create_default_context ::
            Ev_SMTP (smtp_server r) (smtp_port r) :: rest /\
       Forall (fun ev => is_SMTP ev = false /\ is_SMTP_SSL ev = false) rest /\
       (forall w2,
          SMTP env (smtp_server r) (smtp_port r) w1 = (Return tt, w2) ->
          exists rest',
            rest = Ev_starttls (keyfile r) (certfile r) :: rest' /\
            Forall (fun ev => is_starttls ev = false) rest')) /\
  (use_tls r = false ->
     exists rest,
       tr = trace st ++
            Call_send_email message subject_line r raise_error ::
            Ev_create_default_context ::
            Ev_SMTP_SSL (smtp_server r) (smtp_port r) (keyfile r) (certfile r)
            :: rest /\
       Forall (fun ev => is_SMTP ev = false /\ is_SMTP_SSL ev = false /\
                         is_starttls ev = false) rest).
Proof.
  intros Hbuilt Hctx tr. unfold tr. clear tr.
  rewrite send_email_unfold, Hbuilt.
  unfold entered, smtp_attempt, with_server, smtp_session, bind, call, emit, ret.
  simpl. rewrite Hctx. simpl.
  split; intros ->; simpl.
  - destruct raise_error; repeat answer; trace_shape.
  - destruct raise_error; repeat answer; trace_shape.
Qed.
End Dispatcher.

(** ** The refusal dictionary *)

Section RefusalDictionary.
Context {World : Type}.
Variable env : Environment World.
Variable MIMEText_as_string : string -> list (string * string) -> option string.

End RefusalDictionary.

(** ** The polling loop *)

Section Monitor.
Context {World : Type}.
Variable env : Environment World.
Variable MIMEText_as_string : string -> list (string * string) -> option string.
Variable get_details : Operation -> string.
Variable OperationState_format : OperationState -> string.

Lemma doze_returns poll_interval_seconds timeout_seconds start (st : State World) :
  doze env poll_interval_seconds timeout_seconds start st =
    (Return tt, (doze env poll_interval_seconds timeout_seconds start st).2).
Proof. reflexivity. Qed.

(** A run that overruns its budget ends in the Timeout error, as soon as
    the loop is given fuel for its polls. *)
Lemma poll_loop_overruns send_status_function r job_id poll_interval_seconds
    budget notify_states start k prev log (st : State World) :
  overruns env send_status_function r job_id poll_interval_seconds budget
    notify_states start k prev log st ->
  forall fuel, (k < fuel)%nat ->
  exists st',
    poll_loop env send_status_function r job_id poll_interval_seconds
      (Some budget) notify_states start fuel prev log st
      = (Raise (TimeoutError "Timeout"), st').
Proof.
  induction 1 as [prev log st s log' st' Hobs Hterm Hlate
                 | k prev log st s log' st' Hobs Hterm Hintime _ IH];
    intros [| fuel] Hfuel; try lia.
  - exists st'. simpl. unfold bind at 1. rewrite Hobs. simpl. rewrite Hterm.
    unfold bind, check_budget, timed_out.
    now rewrite (proj2 (Z.ltb_lt _ _) Hlate).
  - destruct (IH fuel ltac:(lia)) as [st'' E].
    exists st''. simpl. unfold bind at 1. rewrite Hobs. simpl. rewrite Hterm.
    unfold bind at 1, check_budget at 1, timed_out.
    rewrite (proj2 (Z.ltb_ge _ _) Hintime).
    unfold bind at 1. rewrite doze_returns. exact E.
Qed.

(** The loop adds to the trace only what its dispatcher adds, its
    fetches and its sleeps. *)
Lemma poll_loop_adds (P : Event -> Prop) send_status_function r job_id
    poll_interval_seconds timeout_seconds notify_states start :
  (forall operation ns, adds P (send_status_function r operation ns)) ->
  (forall ev, is_send_email ev = false -> P ev) ->
  forall fuel prev log,
    adds P (poll_loop env send_status_function r job_id poll_interval_seconds
              timeout_seconds notify_states start fuel prev log).
Proof.
  intros Hdispatch HP.
  induction fuel as [| fuel IH]; intros prev log; simpl.
  - apply adds_ret.
  - apply adds_bind.
    + unfold observe. apply adds_bind; [apply adds_call; now apply HP |].
      intros op. apply adds_bind.
      * intros st. exists []. simpl. now rewrite app_nil_r.
      * intros s. apply adds_if; [| apply adds_ret].
        apply adds_bind; [apply Hdispatch |].
        intros [entry |]; apply adds_ret.
    + intros seen. apply adds_if; [apply adds_ret |].
      apply adds_bind.
      * intros st. exists []. unfold check_budget.
        destruct (timed_out _ _ _); simpl; now rewrite app_nil_r.
      * intros _. apply adds_bind; [| intros _; apply IH].
        intros st. unfold doze. apply adds_call. now apply HP.
Qed.

(** On the monitoring path, too, [send_email] is never invoked with
    [raise_error] off. *)
Lemma monitor_job_never_suppresses_errors
    r operation poll_interval_seconds timeout_seconds notify_states fuel :
  adds (fun ev => suppresses_errors ev = false)
    (monitor_job env MIMEText_as_string get_details OperationState_format
       r operation poll_interval_seconds timeout_seconds notify_states fuel).
Proof.
  intros st. unfold monitor_job, monitor_job_common.
  apply poll_loop_adds.
  - intros op ns. apply dispatch_adds.
  - apply not_send_email_not_suppressing.
Qed.

(** C2.  [timeout_seconds] is set to [budget].  If the run of
    [monitor_job] observes the operation [k] times within the budget,
    never in a terminal state, and at the next observation the operation
    is still not in a terminal state while the time elapsed since the
    loop started exceeds the budget, then [monitor_job], given fuel for
    these polls, raises the Timeout error to its caller: it does not
    return a log. *)
Theorem monitor_job_raises_Timeout
    r operation poll_interval_seconds budget notify_states k fuel (st : State World) :
  overruns env
    (_send_job_status_message env MIMEText_as_string get_details
       OperationState_format)
    r (job_id_of operation) poll_interval_seconds budget
    (default all_states notify_states) (clock env (world st)) k None [] st ->
  (k < fuel)%nat ->
  exists st',
    monitor_job env MIMEText_as_string get_details OperationState_format
      r operation poll_interval_seconds (Some budget) notify_states fuel st
      = (Raise (TimeoutError "Timeout"), st').
Proof.
  intros Hrun Hfuel. unfold monitor_job, monitor_job_common.
  eapply poll_loop_overruns; eauto.
Qed.
End Monitor.

(** ** The module at work on the stub *)

Example dispatch_on_notified_state :
  (stub_dispatch routing0 op_succeeded (Some [SUCCEEDED; FAILED]) state0).1 =
    Return (Some ("Job: 1 Status: SUCCEEDED",
                  Refusals {[ "b@x.org" := (550, "No such user") ]})).
Proof. vm_compute. reflexivity. Qed.

Example dispatch_on_other_state :
  stub_dispatch routing0 op_succeeded (Some [FAILED; CANCELED]) state0 =
    (Return None, state0).
Proof. reflexivity. Qed.

Example dispatch_on_unknown_state :
  stub_dispatch routing0 op_bogus (Some all_states) state0 =
    (Raise (KeyError "EXPLODED"), state0).
Proof. reflexivity. Qed.

Example dispatch_trace :
  map is_send_email
    (trace (stub_dispatch routing0 op_succeeded (Some [SUCCEEDED]) state0).2) =
    [true; false; false; false; false; false; false].
Proof. vm_compute. reflexivity. Qed.

Example rejected_login_raises :
  (rejecting_send "hi" "subject" routing0 true state0).1 =
    Raise (SMTPException "Authentication failed").
Proof. reflexivity. Qed.

Example rejected_login_described :
  (rejecting_send "hi" "subject" routing0 false state0).1 =
    Return ("hi", Failure {| type := "SMTPException";
                             text := "The email: " +:+ dquote +:+ "hi" +:+ dquote
                                     +:+ " failed to send.";
                             error := SMTPException "Authentication failed" |}).
Proof. reflexivity. Qed.

Example all_accepted_empty_dictionary :
  (send_email (stub accept_all (Return tt)) stub_MIMEText_as_string
     "hi" "subject" routing0 true state0).1 = Return ("hi", Refusals ∅).
Proof. vm_compute. reflexivity. Qed.

Example all_refused_raises :
  (send_email (stub (fun _ => Some (550, "No such user")) (Return tt))
     stub_MIMEText_as_string "hi" "subject" routing0 true state0).1 =
    Raise (SMTPException "SMTPRecipientsRefused").
Proof. reflexivity. Qed.

(** The scenario of section 8: states RUNNING, RUNNING, SUCCEEDED over
    three polls, notifications wanted for SUCCEEDED only. *)
Example monitor_three_polls :
  (stub_monitor_job routing0 (inl "7") 5 (Some 20) (Some [SUCCEEDED]) 10
     {| world := {| ticks := 0; script := ["RUNNING"; "RUNNING"; "SUCCEEDED"] |};
        trace := [] |}).1 =
    Return (Some [("Job: 7 Status: SUCCEEDED",
                   Refusals {[ "b@x.org" := (550, "No such user") ]})]).
Proof. vm_compute. reflexivity. Qed.

(** ** Instances *)

Lemma dispatcher_sends_iff_state_notified_witness :
  OperationState_getitem (state op_succeeded) = Return SUCCEEDED /\
  ((SUCCEEDED ∉ [SUCCEEDED; FAILED] ->
      stub_dispatch routing0 op_succeeded (Some [SUCCEEDED; FAILED]) state0
        = (Return None, state0)) /\
   (SUCCEEDED ∈ [SUCCEEDED; FAILED] ->
      let sent := stub_send (stub_get_details op_succeeded)
                    ("Job " +:+ resource_id op_succeeded +:+ ": "
                     +:+ stub_format SUCCEEDED)
                    routing0 true state0 in
      stub_dispatch routing0 op_succeeded (Some [SUCCEEDED; FAILED]) state0
        = (passed_on sent.1, sent.2) /\
      transport_invocations (trace sent.2)
        = S (transport_invocations (trace state0)))).
Proof.
  split; [reflexivity |].
  apply (dispatcher_sends_iff_state_notified (stub refuse_b (Return tt))
           stub_MIMEText_as_string stub_get_details stub_format
           routing0 op_succeeded SUCCEEDED [SUCCEEDED; FAILED] state0).
  reflexivity.
Defined.

Lemma unknown_state_is_fatal_witness :
  (forall s, OperationState_getitem (state op_bogus) <> Return s) /\
  stub_dispatch routing0 op_bogus (Some all_states) state0
    = (Raise (KeyError (state op_bogus)), state0).
Proof.
  assert (H : forall s, OperationState_getitem (state op_bogus) <> Return s)
    by (intros s; vm_compute; discriminate).
  split; [exact H |].
  apply (unknown_state_is_fatal (stub refuse_b (Return tt))
           stub_MIMEText_as_string stub_get_details stub_format
           routing0 op_bogus (Some all_states) state0 H).
Defined.

Lemma notification_subject_and_body_witness :
  OperationState_getitem (state op_succeeded) = Return SUCCEEDED /\
  SUCCEEDED ∈ [SUCCEEDED] /\
  let ran := stub_dispatch routing0 op_succeeded (Some [SUCCEEDED]) state0 in
  (exists rest,
     trace ran.2 =
       trace state0 ++
       Call_send_email (stub_get_details op_succeeded)
         ("Job " +:+ resource_id op_succeeded +:+ ": " +:+ stub_format SUCCEEDED)
         routing0 true :: rest /\
     Forall (session_event routing0
               (_build_message stub_MIMEText_as_string
                  (stub_get_details op_succeeded)
                  ("Job " +:+ resource_id op_succeeded +:+ ": "
                   +:+ stub_format SUCCEEDED)
                  (sender_address routing0) (recipient_addresses routing0))) rest) /\
  (forall message response,
     ran.1 = Return (Some (message, response)) ->
     message = stub_get_details op_succeeded).
Proof.
  assert (Hin : SUCCEEDED ∈ [SUCCEEDED]) by constructor.
  split; [reflexivity |]. split; [exact Hin |].
  apply (notification_subject_and_body (stub refuse_b (Return tt))
           stub_MIMEText_as_string stub_get_details stub_format
           routing0 op_succeeded SUCCEEDED [SUCCEEDED] state0 eq_refl Hin).
Defined.

Lemma dispatching_twice_sends_twice_witness :
  OperationState_getitem (state op_succeeded) = Return SUCCEEDED /\
  SUCCEEDED ∈ [SUCCEEDED] /\
  let first := stub_dispatch routing0 op_succeeded (Some [SUCCEEDED]) state0 in
  let second := stub_dispatch routing0 op_succeeded (Some [SUCCEEDED]) first.2 in
  let sent1 := stub_send (stub_get_details op_succeeded)
                 ("Job " +:+ resource_id op_succeeded +:+ ": "
                  +:+ stub_format SUCCEEDED) routing0 true state0 in
  let sent2 := stub_send (stub_get_details op_succeeded)
                 ("Job " +:+ resource_id op_succeeded +:+ ": "
                  +:+ stub_format SUCCEEDED) routing0 true first.2 in
  first = (passed_on sent1.1, sent1.2) /\
  second = (passed_on sent2.1, sent2.2) /\
  transport_invocations (trace second.2) =
    S (S (transport_invocations (trace state0))).
Proof.
  assert (Hin : SUCCEEDED ∈ [SUCCEEDED]) by constructor.
  split; [reflexivity |]. split; [exact Hin |].
  apply (dispatching_twice_sends_twice (stub refuse_b (Return tt))
           stub_MIMEText_as_string stub_get_details stub_format
           routing0 op_succeeded SUCCEEDED [SUCCEEDED] state0 eq_refl Hin).
Defined.

Lemma smtp_failure_raised_or_described_witness :
  let e := SMTPException "Authentication failed" in
  let attempt :=
    smtp_attempt rejecting routing0 hi_mime
      (entered "hi" "subject" routing0 false state0) in
  _build_message stub_MIMEText_as_string "hi" "subject"
    (sender_address routing0) (recipient_addresses routing0) = Return hi_mime /\
  attempt = (Raise e, attempt.2) /\
  is_SMTPException e = true /\
  rejecting_send "hi" "subject" routing0 false state0 =
    (Return ("hi",
             Failure {| type := "SMTPException";
                        text := "The email: " +:+ dquote +:+ "hi" +:+ dquote
                                +:+ " failed to send.";
                        error := e |}),
     {| world := world attempt.2;
        trace := trace attempt.2 ++ [Ev_LOGGER_error ("Error: " +:+ exn_str e)] |}).
Proof.
  intros e attempt.
  split; [reflexivity |]. split; [reflexivity |]. split; [reflexivity |].
  apply (smtp_failure_raised_or_described rejecting stub_MIMEText_as_string
           "hi" "subject" routing0 false hi_mime e state0 attempt.2);
    reflexivity.
Defined.

Lemma encryption_follows_use_tls_witness :
  _build_message stub_MIMEText_as_string "hi" "subject"
    (sender_address routing0) (recipient_addresses routing0) = Return hi_mime /\
  create_default_context (stub refuse_b (Return tt)) (world state0)
    = (Return tt, world state0) /\
  let tr := trace (stub_send "hi" "subject" routing0 true state0).2 in
  (use_tls routing0 = true ->
     exists rest,
       tr = trace state0 ++
            Call_send_email "hi" "subject" routing0 true ::
            Ev_create_default_context ::
            Ev_SMTP (smtp_server routing0) (smtp_port routing0) :: rest /\
       Forall (fun ev => is_SMTP ev = false /\ is_SMTP_SSL ev = false) rest /\
       (forall w2,
          SMTP (stub refuse_b (Return tt)) (smtp_server routing0)
            (smtp_port routing0) (world state0) = (Return tt, w2) ->
          exists rest',
            rest = Ev_starttls (keyfile routing0) (certfile routing0) :: rest' /\
            Forall (fun ev => is_starttls ev = false) rest')) /\
  (use_tls routing0 = false ->
     exists rest,
       tr = trace state0 ++
            Call_send_email "hi" "subject" routing0 true ::
            Ev_create_default_context ::
            Ev_SMTP_SSL (smtp_server routing0) (smtp_port routing0)
              (keyfile routing0) (certfile routing0) :: rest /\
       Forall (fun ev => is_SMTP ev = false /\ is_SMTP_SSL ev = false /\
                         is_starttls ev = false) rest).
Proof.
  split; [reflexivity |]. split; [reflexivity |].
  apply (encryption_follows_use_tls (stub refuse_b (Return tt))
           stub_MIMEText_as_string "hi" "subject" routing0 true state0
           hi_mime (world state0));
    reflexivity.
Defined.



Lemma dispatcher_never_suppresses_errors_witness :
  let e := SMTPException "Authentication failed" in
  let attempt :=
    smtp_attempt rejecting routing0 job_mime
      (entered (stub_get_details op_succeeded)
         ("Job " +:+ resource_id op_succeeded +:+ ": " +:+ stub_format SUCCEEDED)
         routing0 true state0) in
  _build_message stub_MIMEText_as_string (stub_get_details op_succeeded)
    ("Job " +:+ resource_id op_succeeded +:+ ": " +:+ stub_format SUCCEEDED)
    (sender_address routing0) (recipient_addresses routing0) = Return job_mime /\
  attempt = (Raise e, attempt.2) /\
  (rejecting_dispatch routing0 op_succeeded (Some [SUCCEEDED]) state0).1 = Raise e.
Proof.
  intros e attempt.
  split; [reflexivity |]. split; [reflexivity |].
  assert (Hin : SUCCEEDED ∈ [SUCCEEDED]) by constructor.
  apply (proj2 (proj2 (dispatcher_never_suppresses_errors rejecting
                         stub_MIMEText_as_string stub_get_details stub_format
                         routing0 op_succeeded (Some [SUCCEEDED]) state0))
           SUCCEEDED [SUCCEEDED] job_mime e attempt.2 eq_refl eq_refl Hin);
    reflexivity.
Defined.

(** Budget 2, polling interval 5, an operation that stays RUNNING: the
    first poll is within the budget, the second is not. *)
Lemma monitor_job_raises_Timeout_witness :
  overruns (stub refuse_b (Return tt))
    (_send_job_status_message (stub refuse_b (Return tt)) stub_MIMEText_as_string
       stub_get_details stub_format)
    routing0 (job_id_of (inl "7")) 5 2 (default all_states (Some [SUCCEEDED]))
    (clock (stub refuse_b (Return tt)) (world state0)) 1 None [] state0 /\
  (1 < 2)%nat /\
  exists st',
    stub_monitor_job routing0 (inl "7") 5 (Some 2) (Some [SUCCEEDED]) 2%nat state0
      = (Raise (TimeoutError "Timeout"), st').
Proof.
  assert (Hrun :
    overruns (stub refuse_b (Return tt))
      (_send_job_status_message (stub refuse_b (Return tt))
         stub_MIMEText_as_string stub_get_details stub_format)
      routing0 (job_id_of (inl "7")) 5 2 (default all_states (Some [SUCCEEDED]))
      (clock (stub refuse_b (Return tt)) (world state0)) 1 None [] state0).
  { eapply overruns_later; [reflexivity | reflexivity | simpl; lia |].
    eapply overruns_now; [reflexivity | reflexivity | simpl; lia]. }
  assert (Hfuel : (1 < 2)%nat) by lia.
  split; [exact Hrun |]. split; [exact Hfuel |].
  apply (monitor_job_raises_Timeout (stub refuse_b (Return tt))
           stub_MIMEText_as_string stub_get_details stub_format
           routing0 (inl "7") 5 2 (Some [SUCCEEDED]) 1 2 state0 Hrun Hfuel).
Defined.

(** * More on [send_email] and the dispatcher *)

Lemma occurrences_app p tr1 tr2 :
  occurrences p (tr1 ++ tr2) = (occurrences p tr1 + occurrences p tr2)%nat.
Proof. unfold occurrences. now rewrite filter_app, length_app. Qed.

Lemma occurrences_none (p : Event -> bool) tr :
  Forall (fun ev => p ev = false) tr -> occurrences p tr = 0%nat.
Proof.
  unfold occurrences.
  induction 1 as [| ev tr Hev _ IH]; [done |].
  rewrite filter_cons_False; [done | congruence].
Qed.

Section Transport.
Context {World : Type}.
Variable env : Environment World.
Variable MIMEText_as_string : string -> list (string * string) -> option string.

Abbreviation send := (send_email env MIMEText_as_string).
Abbreviation built message subject_line r :=
  (_build_message MIMEText_as_string message subject_line
     (sender_address r) (recipient_addresses r)).

(** Case analysis on the next answer of the environment. *)
Ltac reply :=
  match goal with
  | |- context [create_default_context env ?w] =>
      destruct (create_default_context env w) as [[[] | ?] ?] eqn:?
  | |- context [SMTP env ?h ?p ?w] =>
      destruct (SMTP env h p w) as [[[] | ?] ?] eqn:?
  | |- context [SMTP_SSL env ?h ?p ?k ?c ?w] =>
      destruct (SMTP_SSL env h p k c w) as [[[] | ?] ?] eqn:?
  | |- context [starttls env ?k ?c ?w] =>
      destruct (starttls env k c w) as [[[] | ?] ?] eqn:?
  | |- context [login env ?u ?p ?w] =>
      destruct (login env u p w) as [[[] | ?] ?] eqn:?
  | |- context [sendmail env ?f ?t ?m ?w] =>
      destruct (sendmail env f t m w) as [[? | ?] ?] eqn:?
  | |- context [smtp_exit env ?w] =>
      destruct (smtp_exit env w) as [[[] | ?] ?] eqn:?
  | |- context [is_SMTPException ?e] =>
      destruct (is_SMTPException e) eqn:?
  end; simpl.

Ltac run_send_email :=
  rewrite ?send_email_unfold;
  unfold entered, smtp_attempt, with_server, smtp_session, bind, call, emit, ret;
  simpl.

(** What building the message may raise is no [SMTPException]. *)
Lemma _build_message_raises message subject_line sender recipients e :
  _build_message MIMEText_as_string message subject_line sender recipients
    = Raise e ->
  is_SMTPException e = false.
Proof.
  unfold _build_message.
  destruct (MIMEText_as_string _ _); [discriminate |].
  now intros [= <-].
Qed.


Ltac count_events :=
  simpl; rewrite ?occurrences_app; unfold occurrences; simpl; lia.

(** A failure of the mail session (the [try] block, run on the message
    the call has built) that is no [SMTPException] (a refused
    connection, an SSL error) is not handled at all: it propagates
    whatever [raise_error] says, and nothing is logged: the state is the
    one in which the session failed. *)
Theorem other_errors_always_propagate
    message subject_line r raise_error msg e (st st' : State World) :
  built message subject_line r = Return msg ->
  smtp_attempt env r msg
    (entered message subject_line r raise_error st) = (Raise e, st') ->
  is_SMTPException e = false ->
  send message subject_line r raise_error st = (Raise e, st').
Proof.
  intros Hbuilt Hfail He. now rewrite send_email_unfold, Hbuilt, Hfail, He.
Qed.


(** The connection is closed exactly when it was opened: [__exit__] is
    called once if the message was built, the TLS context created and
    the connection call returned its server object, whatever happens
    afterwards, and not at all otherwise. *)
Theorem connection_closed_iff_opened
    message subject_line r raise_error (st : State World) :
  occurrences is_exit (trace (send message subject_line r raise_error st).2) =
    (occurrences is_exit (trace st) +
     (if connects env (built message subject_line r) r (world st)
      then 1 else 0))%nat.
Proof.
  rewrite send_email_unfold. unfold connects, connect.
  destruct (built message subject_line r) as [msg | e0]; [| count_events].
  run_send_email.
  destruct r as [sa sp ra host port tls kf cf]. simpl.
  destruct tls, raise_error; simpl; repeat reply; count_events.
Qed.

(** One line goes to the error log exactly when the outcome of
    [send_email] reports an [SMTPException] (by raising it or by
    returning the error dictionary); a call that returns the refusal
    dictionary, or that fails with another error, logs nothing. *)
Theorem logged_iff_SMTPException
    message subject_line r raise_error (st : State World) :
  let ran := send message subject_line r raise_error st in
  occurrences is_LOGGER_error (trace ran.2) =
    (occurrences is_LOGGER_error (trace st) +
     (if reports_SMTPException ran.1 then 1 else 0))%nat.
Proof.
  simpl. rewrite send_email_unfold.
  destruct (built message subject_line r) as [msg | e0] eqn:Hbuilt.
  - run_send_email.
    destruct r as [sa sp ra host port tls kf cf]. simpl.
    destruct tls, raise_error; simpl; repeat reply; count_events.
  - simpl. rewrite (_build_message_raises _ _ _ _ _ Hbuilt). count_events.
Qed.


(** When [send_email] returns, it returns the message it was given, and
    either the dictionary of [sendmail], in which case the message was
    built and the whole session has taken place, every call made once,
    in order, the connection closed, nothing logged; or, only with
    [raise_error] off, the error dictionary of an [SMTPException], whose
    log line is the last event. *)
Theorem send_email_returns_after_full_session
    message subject_line r raise_error (st st' : State World) message' response :
  send message subject_line r raise_error st = (Return (message', response), st') ->
  message' = message /\
  ((exists refused msg,
      built message subject_line r = Return msg /\
      response = Refusals refused /\
      trace st' =
        trace st ++
        Call_send_email message subject_line r raise_error ::
        session_calls r msg ++ [Ev_exit]) \/
   (raise_error = false /\
    exists e tr,
      is_SMTPException e = true /\
      response = Failure {| type := "SMTPException";
                            text := "The email: " +:+ dquote +:+ message
                                    +:+ dquote +:+ " failed to send.";
                            error := e |} /\
      trace st' = tr ++ [Ev_LOGGER_error ("Error: " +:+ exn_str e)])).
Proof.
  rewrite send_email_unfold.
  destruct (built message subject_line r) as [msg | e0]; [| discriminate].
  run_send_email.
  destruct r as [sa sp ra host port tls kf cf].
  unfold session_calls, connection_event. simpl in *.
  destruct tls, raise_error; simpl; repeat reply; intros H;
    first
      [ discriminate H
      | injection H as <- <- <-; split; [reflexivity |];
        first
          [ left; eexists; eexists; split; [reflexivity |];
            split; [reflexivity |];
            simpl; rewrite <- ?app_assoc; reflexivity
          | right; split; [reflexivity |];
            eexists; eexists; split; [eassumption |];
            split; reflexivity ] ].
Qed.

(** With [raise_error] off, [send_email] never raises an
    [SMTPException]: whatever it still raises is an error of another
    kind, which the [except] clause does not cover. *)
Theorem suppressing_never_raises_SMTPException
    message subject_line r (st : State World) e :
  (send message subject_line r false st).1 = Raise e ->
  is_SMTPException e = false.
Proof.
  rewrite send_email_unfold.
  destruct (built message subject_line r) as [msg | e0] eqn:Hbuilt; simpl;
    [| intros [= <-]; exact (_build_message_raises _ _ _ _ _ Hbuilt)].
  destruct (smtp_attempt _ _ _ _) as [[response | e'] st1]; simpl;
    [discriminate |].
  destruct (is_SMTPException e') eqn:He'; simpl; [discriminate |].
  now intros [= <-].
Qed.

(** With [use_tls] on, a connection whose upgrade fails is never logged
    into.  Let the environment be such that the TLS context is created,
    the plaintext connection opened and [starttls] raises.  Then the
    call makes neither a [login] nor a [sendmail] call, so the password
    and the message do not leave in the clear; and if the message was
    built, so that the connection was in fact opened, the connection is
    closed, once. *)
Theorem no_login_without_starttls
    message subject_line r raise_error (st : State World) w1 w2 w3 e :
  use_tls r = true ->
  create_default_context env (world st) = (Return tt, w1) ->
  SMTP env (smtp_server r) (smtp_port r) w1 = (Return tt, w2) ->
  starttls env (keyfile r) (certfile r) w2 = (Raise e, w3) ->
  exists rest,
    trace (send message subject_line r raise_error st).2 = trace st ++ rest /\
    Forall (fun ev => is_login ev = false /\ is_sendmail ev = false) rest /\
    occurrences is_exit rest =
      match built message subject_line r with
      | Return _ => 1%nat
      | Raise _ => 0%nat
      end.
Proof.
  intros Htls Hctx Hconn Hup.
  rewrite send_email_unfold.
  destruct (built message subject_line r) as [msg | e0].
  - run_send_email.
    rewrite Hctx, Htls. simpl. rewrite Hconn. simpl. rewrite Hup. simpl.
    destruct raise_error; repeat reply;
      (eexists; split; [rewrite <- ?app_assoc; simpl; reflexivity |]);
      (split; [repeat constructor | reflexivity]).
  - eexists. split; [reflexivity |].
    split; [repeat constructor | reflexivity].
Qed.

(** A failure to close the connection overrides what the session did.
    If [__exit__] raises an [SMTPException], then, once the message was
    built and the connection opened, that exception is the one
    [send_email] reports (raised, or described in the error dictionary),
    even when [sendmail] had accepted the mail and returned its
    dictionary. *)
Theorem exit_failure_overrides
    message subject_line r raise_error (st : State World) e :
  connects env (built message subject_line r) r (world st) = true ->
  (forall w, (smtp_exit env w).1 = Raise e) ->
  is_SMTPException e = true ->
  (send message subject_line r raise_error st).1 =
    if raise_error
    then Raise e
    else Return (message,
                 Failure {| type := "SMTPException";
                            text := "The email: " +:+ dquote +:+ message
                                    +:+ dquote +:+ " failed to send.";
                            error := e |}).
Proof.
  intros Hconn Hexit He.
  revert Hconn. unfold connects, connect.
  rewrite send_email_unfold.
  destruct (built message subject_line r) as [msg | e0]; [| discriminate].
  run_send_email.
  destruct r as [sa sp ra host port tls kf cf]. simpl.
  destruct tls, raise_error; simpl; repeat reply; intros Hconn;
    try discriminate Hconn;
    repeat match goal with
           | H : smtp_exit env ?w = _ |- _ =>
               let H' := fresh in
               pose proof (Hexit w) as H'; rewrite H in H'; simpl in H';
               clear H; first [discriminate H' | injection H' as ->]
           end;
    rewrite ?He in *; try discriminate; reflexivity.
Qed.

Variable get_details : Operation -> string.
Variable OperationState_format : OperationState -> string.

Abbreviation dispatch :=
  (_send_job_status_message env MIMEText_as_string get_details
     OperationState_format).

(** [notify_states] is used as a set: two lists with the same members,
    in whatever order and multiplicity, make the dispatcher behave the
    same on every operation and in every world. *)
Theorem notify_states_is_a_set
    r operation (l1 l2 : list OperationState) (st : State World) :
  (forall s, s ∈ l1 <-> s ∈ l2) ->
  dispatch r operation (Some l1) st = dispatch r operation (Some l2) st.
Proof.
  intros Hsame.
  unfold _send_job_status_message, bind, lift, state_in, ret.
  destruct (OperationState_getitem (state operation)) as [s | e]; [| done].
  now rewrite (bool_decide_ext _ _ (Hsame s)).
Qed.

(** With an empty [notify_states] the dispatcher never sends, whatever
    the operation: world and trace stay as they are, and the result is
    [None], except that an unknown state still raises its [KeyError]. *)
Theorem empty_notify_states_never_sends r operation (st : State World) :
  dispatch r operation (Some []) st =
    (match OperationState_getitem (state operation) with
     | Return _ => Return None
     | Raise e => Raise e
     end, st).
Proof.
  destruct (OperationState_getitem (state operation)) as [s | e] eqn:E.
  - apply (dispatch_skip env MIMEText_as_string get_details
             OperationState_format r operation s [] st E).
    apply not_elem_of_nil.
  - now apply dispatch_unknown_state.
Qed.

End Transport.

(** ** Instances *)

Example unreachable_server_not_logged :
  send_email (scripted unreachable) stub_MIMEText_as_string
    "hi" "subject" routing0 false state0 =
    (Raise (OtherError "Connection refused"),
     {| world := world state0;
        trace := [Call_send_email "hi" "subject" routing0 false;
                  Ev_create_default_context;
                  Ev_SMTP "smtp.gmail.com" "587"] |}).
Proof. reflexivity. Qed.

Example accepted_mail_reported_as_failed :
  (send_email (scripted bad_quit) stub_MIMEText_as_string
     "hi" "subject" routing0 false state0).1 =
    Return ("hi", Failure {| type := "SMTPException";
                             text := "The email: " +:+ dquote +:+ "hi" +:+ dquote
                                     +:+ " failed to send.";
                             error := SMTPException "(500, b'QUIT failed')" |}).
Proof. reflexivity. Qed.

(** A subject with an embedded header line: the message is not built,
    the error is raised whatever [raise_error] is, and no call is made
    to the server, however willing it is. *)
Example embedded_header_no_call :
  send_email (scripted all_ok) stub_MIMEText_as_string
    "hi" bcc_subject routing0 false state0 =
    (Raise (HeaderParseError
              "header value appears to contain an embedded header"),
     {| world := world state0;
        trace := [Call_send_email "hi" bcc_subject routing0 false] |}).
Proof. reflexivity. Qed.

Example embedded_header_no_exit :
  connects (scripted all_ok)
    (_build_message stub_MIMEText_as_string "hi" bcc_subject
       (sender_address routing0) (recipient_addresses routing0))
    routing0 (world state0) = false.
Proof. reflexivity. Qed.

Example one_refusal_421_raises :
  stub_sendmail
    (fun each => if String.eqb each "b@x.org"
                 then Some (421, "Service not available") else None)
    ["a@x.org"; "b@x.org"; "c@x.org"] =
    Raise (SMTPException "SMTPRecipientsRefused").
Proof. reflexivity. Qed.

Lemma other_errors_always_propagate_witness :
  let e := OtherError "Connection refused" in
  let attempt :=
    smtp_attempt (scripted unreachable) routing0 hi_mime
      (entered "hi" "subject" routing0 false state0) in
  _build_message stub_MIMEText_as_string "hi" "subject"
    (sender_address routing0) (recipient_addresses routing0) = Return hi_mime /\
  attempt = (Raise e, attempt.2) /\
  is_SMTPException e = false /\
  send_email (scripted unreachable) stub_MIMEText_as_string
    "hi" "subject" routing0 false state0 = (Raise e, attempt.2).
Proof.
  intros e attempt.
  split; [reflexivity |]. split; [reflexivity |]. split; [reflexivity |].
  apply (other_errors_always_propagate (scripted unreachable)
           stub_MIMEText_as_string "hi" "subject" routing0 false hi_mime e
           state0 attempt.2);
    reflexivity.
Defined.

Lemma suppressing_never_raises_SMTPException_witness :
  (send_email (scripted unreachable) stub_MIMEText_as_string
     "hi" "subject" routing0 false state0).1
    = Raise (OtherError "Connection refused") /\
  is_SMTPException (OtherError "Connection refused") = false.
Proof.
  split; [reflexivity |].
  apply (suppressing_never_raises_SMTPException (scripted unreachable)
           stub_MIMEText_as_string "hi" "subject" routing0 state0).
  reflexivity.
Defined.

Lemma send_email_returns_after_full_session_witness :
  let ran := send_email (scripted all_ok) stub_MIMEText_as_string
               "hi" "subject" routing0 true state0 in
  ran = (Return ("hi", Refusals ∅), ran.2) /\
  "hi" = "hi" /\
  ((exists refused msg,
      _build_message stub_MIMEText_as_string "hi" "subject"
        (sender_address routing0) (recipient_addresses routing0) = Return msg /\
      Refusals ∅ = Refusals refused /\
      trace ran.2 =
        trace state0 ++
        Call_send_email "hi" "subject" routing0 true ::
        session_calls routing0 msg ++ [Ev_exit]) \/
   (true = false /\
    exists e tr,
      is_SMTPException e = true /\
      Refusals ∅ = Failure {| type := "SMTPException";
                              text := "The email: " +:+ dquote +:+ "hi"
                                      +:+ dquote +:+ " failed to send.";
                              error := e |} /\
      trace ran.2 = tr ++ [Ev_LOGGER_error ("Error: " +:+ exn_str e)])).
Proof.
  intros ran.
  split; [reflexivity |].
  apply (send_email_returns_after_full_session (scripted all_ok)
           stub_MIMEText_as_string "hi" "subject" routing0 true
           state0 ran.2 "hi" (Refusals ∅)).
  reflexivity.
Defined.

Lemma no_login_without_starttls_witness :
  use_tls routing0 = true /\
  starttls (scripted no_starttls) (keyfile routing0) (certfile routing0)
    (world state0)
    = (Raise (SMTPException "STARTTLS extension not supported by server."),
       world state0) /\
  exists rest,
    trace (send_email (scripted no_starttls) stub_MIMEText_as_string
             "hi" "subject" routing0 true state0).2 = trace state0 ++ rest /\
    Forall (fun ev => is_login ev = false /\ is_sendmail ev = false) rest /\
    occurrences is_exit rest =
      match _build_message stub_MIMEText_as_string "hi" "subject"
              (sender_address routing0) (recipient_addresses routing0) with
      | Return _ => 1%nat
      | Raise _ => 0%nat
      end.
Proof.
  split; [reflexivity |]. split; [reflexivity |].
  apply (no_login_without_starttls (scripted no_starttls)
           stub_MIMEText_as_string "hi" "subject" routing0 true state0
           (world state0) (world state0) (world state0)
           (SMTPException "STARTTLS extension not supported by server."));
    reflexivity.
Defined.

Lemma exit_failure_overrides_witness :
  connects (scripted bad_quit)
    (_build_message stub_MIMEText_as_string "hi" "subject"
       (sender_address routing0) (recipient_addresses routing0))
    routing0 (world state0) = true /\
  (forall w, (smtp_exit (scripted bad_quit) w).1
             = Raise (SMTPException "(500, b'QUIT failed')")) /\
  (send_email (scripted bad_quit) stub_MIMEText_as_string
     "hi" "subject" routing0 true state0).1
    = Raise (SMTPException "(500, b'QUIT failed')").
Proof.
  split; [reflexivity |]. split; [intros w; reflexivity |].
  apply (exit_failure_overrides (scripted bad_quit) stub_MIMEText_as_string
           "hi" "subject" routing0 true state0
           (SMTPException "(500, b'QUIT failed')"));
    [reflexivity | intros w; reflexivity | reflexivity].
Defined.

Lemma notify_states_is_a_set_witness :
  (forall s, s ∈ [SUCCEEDED; FAILED] <-> s ∈ [FAILED; SUCCEEDED; FAILED]) /\
  stub_dispatch routing0 op_succeeded (Some [SUCCEEDED; FAILED]) state0 =
  stub_dispatch routing0 op_succeeded (Some [FAILED; SUCCEEDED; FAILED]) state0.
Proof.
  assert (H : forall s, s ∈ [SUCCEEDED; FAILED] <-> s ∈ [FAILED; SUCCEEDED; FAILED])
    by (intros s; rewrite !elem_of_cons; tauto).
  split; [exact H |].
  apply (notify_states_is_a_set (stub refuse_b (Return tt))
           stub_MIMEText_as_string stub_get_details stub_format
           routing0 op_succeeded _ _ state0 H).
Defined.

